(** * InvestmentCalculator: a shallow embedding of [investment_calculator.py]

    The Python class [InvestmentCalculator] is a collection of closed-form
    financial formulas and two iterative simulators.  Each method becomes a
    Rocq function of the same name.

    Numbers.  Python [float] values are modelled as exact rationals [Q]
    (compared with [==]), Python [int] values as [Z]; an [int] used in a
    float expression is injected with [inject_Z].  Rounding, overflow and
    the special values of binary64 are therefore outside the model; the only
    special value the source produces on purpose, [float('inf')] in
    [rule_of_72], is a constructor of [pyfloat].

    Exceptions.  [/] raises [ZeroDivisionError] on a zero divisor and
    [math.pow] raises [ValueError] outside its domain; methods that divide
    by a variable or call [math.pow] live in the error monad [result].
    Division by a non-zero literal ([/ 12], [/ 100]) cannot raise and is
    plain [Qdiv].

    Dictionaries.  Every method returns a [dict] with fixed keys; each one
    is a record whose fields carry the keys, prefixed with the initials of
    the method.  The entries are evaluated in the order of the source, so
    the first exception raised is the one of the source.

    [generate_investment_report] only formats the results of
    [compound_interest] and [rule_of_72] as text and is not embedded.

    Scope.  The embedding computes in exact arithmetic, so it follows the
    code in its control flow (which branch is taken, which exception is
    raised first, which records are built from which values) and in
    every value that binary64 computes exactly, but not in rounding,
    underflow or overflow: [math.pow] raises [OverflowError] on a result
    beyond the float range, and a sum, product or quotient is rounded.
    The theorems below are therefore stated on what does not depend on
    rounding: exceptions of the inputs themselves, guards, and the
    expressions a field is computed from; where a theorem gives a numeric
    value, it is the value of that expression before rounding. *)

From Stdlib Require Import QArith Qpower Qabs Qfield ZArith List Lia Lqa Bool.
Import ListNotations.

Local Open Scope Q_scope.

(** ** Exceptions and the error monad *)

Inductive exn : Type :=
| ZeroDivisionError
| ValueError.

Inductive result (A : Type) : Type :=
| Return (a : A)
| Raise (e : exn).

Arguments Return {A} a.
Arguments Raise {A} e.

Definition bind {A B : Type} (c : result A) (k : A -> result B) : result B :=
  match c with
  | Return a => k a
  | Raise e => Raise e
  end.

Notation "x <- c ;; k" := (bind c (fun x => k))
  (at level 61, c at next level, right associativity).

(** ** Python comparisons on floats *)

(** [x > y] *)
Definition Qgt_bool (x y : Q) : bool := negb (Qle_bool x y).

(** [x <= y] and [x == y] are [Qle_bool] and [Qeq_bool]. *)

(** ** Arithmetic that can raise *)

(** [x / y] with a variable divisor. *)
Definition truediv (x y : Q) : result Q :=
  if Qeq_bool y 0 then Raise ZeroDivisionError else Return (x / y).

(** [math.pow(x, n)] where [n] is a Python [int]: defined everywhere except
    at a zero base with a negative exponent. *)
Definition math_pow_int (x : Q) (n : Z) : result Q :=
  if Qeq_bool x 0 && (n <? 0)%Z then Raise ValueError else Return (x ^ n).

(** The value of a float when it is integral. *)
Definition as_integer (y : Q) : option Z :=
  if (Z.rem (Qnum y) (Zpos (Qden y)) =? 0)%Z
  then Some (Z.quot (Qnum y) (Zpos (Qden y)))
  else None.

(** A float, or the sentinel [float('inf')]. *)
Inductive pyfloat : Type :=
| Finite (q : Q)
| Infinity.

(** ** The calculator object *)

Record InvestmentCalculator : Type := {
  inflation_rate : Q
}.

(** [__init__] *)
Definition init : InvestmentCalculator := {| inflation_rate := 4 # 100 |}.

(** ** compound_interest *)

Record CompoundInterest : Type := {
  ci_future_value : Q;
  ci_total_invested : Q;
  ci_total_interest : Q;
  ci_real_value : Q;
  ci_return_percentage : Q;
  ci_annual_rate : Q;
  ci_years : Z
}.

(** Lines 27-30: growth of the principal. *)
Definition future_value_principal
    (principal rate_per_period : Q) (total_periods : Z) : result Q :=
  g <- math_pow_int (1 + rate_per_period) total_periods ;;
  Return (principal * g).

(** Lines 33-38: growth of the regular contributions. *)
Definition future_value_contributions
    (monthly_contribution rate_per_period : Q) (total_periods : Z) : result Q :=
  if Qgt_bool monthly_contribution 0 && Qgt_bool rate_per_period 0 then
    g <- math_pow_int (1 + rate_per_period) total_periods ;;
    q <- truediv (g - 1) rate_per_period ;;
    Return (monthly_contribution * q)
  else
    Return (monthly_contribution * inject_Z total_periods).

Definition compound_interest (self : InvestmentCalculator)
    (principal annual_rate : Q) (years compounds_per_year : Z)
    (monthly_contribution : Q) : result CompoundInterest :=
  rate_per_period <- truediv annual_rate (inject_Z compounds_per_year) ;;
  let total_periods := (years * compounds_per_year)%Z in
  fv_principal <- future_value_principal principal rate_per_period total_periods ;;
  fv_contributions <-
    future_value_contributions monthly_contribution rate_per_period total_periods ;;
  let total_future_value := fv_principal + fv_contributions in
  let total_invested := principal + monthly_contribution * inject_Z total_periods in
  let total_interest := total_future_value - total_invested in
  deflator <- math_pow_int (1 + inflation_rate self) years ;;
  real_value <- truediv total_future_value deflator ;;
  return_percentage <-
    (if Qgt_bool total_invested 0 then
       p <- truediv total_interest total_invested ;;
       Return (p * 100)
     else Return 0) ;;
  Return {| ci_future_value := total_future_value;
            ci_total_invested := total_invested;
            ci_total_interest := total_interest;
            ci_real_value := real_value;
            ci_return_percentage := return_percentage;
            ci_annual_rate := annual_rate * 100;
            ci_years := years |}.

(** ** calculate_annuity_payment *)

Record AnnuityPayment : Type := {
  ap_monthly_payment : Q;
  ap_total_paid : Q;
  ap_total_interest : Q;
  ap_loan_amount : Q;
  ap_interest_percentage : Q;
  ap_years : Z
}.

Definition calculate_annuity_payment (loan_amount annual_rate : Q)
    (years payments_per_year : Z) : result AnnuityPayment :=
  rate_per_period <- truediv annual_rate (inject_Z payments_per_year) ;;
  let total_periods := (years * payments_per_year)%Z in
  payment <-
    (if Qeq_bool rate_per_period 0 then
       truediv loan_amount (inject_Z total_periods)
     else
       g1 <- math_pow_int (1 + rate_per_period) total_periods ;;
       g2 <- math_pow_int (1 + rate_per_period) total_periods ;;
       truediv (loan_amount * (rate_per_period * g1)) (g2 - 1)) ;;
  let total_paid := payment * inject_Z total_periods in
  let total_interest := total_paid - loan_amount in
  p <- truediv total_interest loan_amount ;;
  Return {| ap_monthly_payment := payment;
            ap_total_paid := total_paid;
            ap_total_interest := total_interest;
            ap_loan_amount := loan_amount;
            ap_interest_percentage := p * 100;
            ap_years := years |}.

(** ** calculate_required_capital *)

Definition calculate_required_capital (monthly_income : Q) (years : Z)
    (annual_return : Q) : result Q :=
  let monthly_rate := annual_return / 12 in
  let total_months := (years * 12)%Z in
  if Qeq_bool monthly_rate 0 then
    Return (monthly_income * inject_Z total_months)
  else
    g <- math_pow_int (1 + monthly_rate) (- total_months) ;;
    q <- truediv (1 - g) monthly_rate ;;
    Return (monthly_income * q).

(** ** calculate_required_monthly_contribution *)

Definition calculate_required_monthly_contribution
    (current_savings target_amount annual_return : Q) (years : Z) : result Q :=
  let monthly_rate := annual_return / 12 in
  let total_months := (years * 12)%Z in
  g <- math_pow_int (1 + monthly_rate) total_months ;;
  let fv_current := current_savings * g in
  let needed_from_contributions := target_amount - fv_current in
  if Qle_bool needed_from_contributions 0 then Return 0
  else if Qeq_bool monthly_rate 0 then
    truediv needed_from_contributions (inject_Z total_months)
  else
    g' <- math_pow_int (1 + monthly_rate) total_months ;;
    truediv (needed_from_contributions * monthly_rate) (g' - 1).

(** ** retirement_planning *)

Record RetirementPlan : Type := {
  rp_current_age : Z;
  rp_retirement_age : Z;
  rp_years_to_retirement : Z;
  rp_current_savings : Q;
  rp_monthly_contribution : Q;
  rp_projected_retirement_savings : Q;
  rp_required_capital : Q;
  rp_shortfall : Q;
  rp_required_monthly_contribution : Q;
  rp_desired_monthly_income : Q;
  rp_retirement_years : Z
}.

Definition life_expectancy : Z := 85.

Definition retirement_planning (self : InvestmentCalculator)
    (current_age retirement_age : Z)
    (current_savings monthly_contribution expected_return
       desired_monthly_income : Q) : result RetirementPlan :=
  let years_to_retirement := (retirement_age - current_age)%Z in
  retirement_savings <-
    compound_interest self current_savings expected_return
      years_to_retirement 12 monthly_contribution ;;
  let retirement_years := (life_expectancy - retirement_age)%Z in
  required_capital <-
    calculate_required_capital desired_monthly_income retirement_years
      (expected_return * (7 # 10)) ;;
  let shortfall := required_capital - ci_future_value retirement_savings in
  required_monthly <-
    (if Qgt_bool shortfall 0 then
       calculate_required_monthly_contribution
         current_savings required_capital expected_return years_to_retirement
     else Return monthly_contribution) ;;
  Return {| rp_current_age := current_age;
            rp_retirement_age := retirement_age;
            rp_years_to_retirement := years_to_retirement;
            rp_current_savings := current_savings;
            rp_monthly_contribution := monthly_contribution;
            rp_projected_retirement_savings := ci_future_value retirement_savings;
            rp_required_capital := required_capital;
            rp_shortfall := if Qgt_bool shortfall 0 then shortfall else 0;
            rp_required_monthly_contribution := required_monthly;
            rp_desired_monthly_income := desired_monthly_income;
            rp_retirement_years := retirement_years |}.

(** ** dividend_reinvestment: the loop *)

Record DividendStep : Type := {
  ds_year : Z;
  ds_value : Q;
  ds_dividends : Q
}.

(** The loop variables of [dividend_reinvestment]. *)
Record DividendState : Type := {
  current_value : Q;
  total_dividends : Q;
  yearly_data : list DividendStep
}.

(** Lines 191-205: the body of the loop, for one [year]. *)
Definition dividend_step (dividend_yield price_appreciation : Q) (year : Z)
    (st : DividendState) : DividendState :=
  let dividends := current_value st * dividend_yield in
  let total_dividends' := total_dividends st + dividends in
  let reinvested := current_value st + dividends in
  let appreciated := reinvested * (1 + price_appreciation) in
  {| current_value := appreciated;
     total_dividends := total_dividends';
     yearly_data := yearly_data st ++
                    [ {| ds_year := year;
                         ds_value := appreciated;
                         ds_dividends := dividends |} ] |}.

(** [n] iterations of the loop, the first one for [year]. *)
Fixpoint dividend_loop (dividend_yield price_appreciation : Q) (n : nat)
    (year : Z) (st : DividendState) : DividendState :=
  match n with
  | O => st
  | S n' =>
      dividend_loop dividend_yield price_appreciation n' (year + 1)
        (dividend_step dividend_yield price_appreciation year st)
  end.

Record DividendReinvestment : Type := {
  dr_initial_investment : Q;
  dr_final_value : Q;
  dr_total_dividends : Q;
  dr_total_return : Q;
  dr_return_percentage : Q;
  dr_cagr : Q;
  dr_yearly_breakdown : list DividendStep
}.

(** ** calculate_cagr and dividend_reinvestment *)

Section RealPower.

(** [math.pow] at a positive base and a non-integral exponent has no
    rational value; the embedding is parametric in it. *)
Variable real_pow : Q -> Q -> Q.

(** [math.pow(x, y)] with a float exponent. *)
Definition math_pow (x y : Q) : result Q :=
  match as_integer y with
  | Some n => math_pow_int x n
  | None =>
      if Qgt_bool x 0 then Return (real_pow x y)
      else if Qeq_bool x 0 && Qgt_bool y 0 then Return 0
      else Raise ValueError
  end.

Definition calculate_cagr (beginning_value ending_value : Q) (years : Z)
  : result Q :=
  if (years =? 0)%Z || Qeq_bool beginning_value 0 then Return 0
  else
    ratio <- truediv ending_value beginning_value ;;
    exponent <- truediv 1 (inject_Z years) ;;
    root <- math_pow ratio exponent ;;
    Return ((root - 1) * 100).

(** [for year in range(1, years + 1)] runs [Z.to_nat years] times. *)
Definition dividend_reinvestment (initial_investment dividend_yield : Q)
    (years : Z) (price_appreciation : Q) : result DividendReinvestment :=
  let st := dividend_loop dividend_yield price_appreciation
              (Z.to_nat years) 1
              {| current_value := initial_investment;
                 total_dividends := 0;
                 yearly_data := [] |} in
  let total_return := current_value st - initial_investment in
  p <- truediv total_return initial_investment ;;
  cagr <- calculate_cagr initial_investment (current_value st) years ;;
  Return {| dr_initial_investment := initial_investment;
            dr_final_value := current_value st;
            dr_total_dividends := total_dividends st;
            dr_total_return := total_return;
            dr_return_percentage := p * 100;
            dr_cagr := cagr;
            dr_yearly_breakdown := yearly_data st |}.

End RealPower.

(** ** dollar_cost_averaging *)

Record DcaStep : Type := {
  ms_month : Z;
  ms_price : Q;
  ms_shares_bought : Q;
  ms_total_shares : Q;
  ms_invested : Q;
  ms_value : Q
}.

(** The loop variables of [dollar_cost_averaging]. *)
Record DcaState : Type := {
  total_invested : Q;
  total_shares : Q;
  base_price : Q;
  monthly_data : list DcaStep
}.

(** Lines 243-246: the month's price change in percent. *)
Definition price_change (price_volatility : list Q) (month : nat) : Q :=
  if (month <? length price_volatility)%nat
  then nth month price_volatility 0
  else 0.

(** Lines 242-266: the body of the loop, for one [month]. *)
Definition dca_step (monthly_investment : Q) (price_volatility : list Q)
    (month : nat) (st : DcaState) : result DcaState :=
  let current_price :=
    base_price st * (1 + price_change price_volatility month / 100) in
  shares_bought <- truediv monthly_investment current_price ;;
  let total_shares' := total_shares st + shares_bought in
  let total_invested' := total_invested st + monthly_investment in
  let portfolio_value := total_shares' * current_price in
  Return {| total_invested := total_invested';
            total_shares := total_shares';
            base_price := current_price;
            monthly_data := monthly_data st ++
                            [ {| ms_month := Z.of_nat month + 1;
                                 ms_price := current_price;
                                 ms_shares_bought := shares_bought;
                                 ms_total_shares := total_shares';
                                 ms_invested := total_invested';
                                 ms_value := portfolio_value |} ] |}.

(** [n] iterations of the loop, the first one for [month]. *)
Fixpoint dca_loop (monthly_investment : Q) (price_volatility : list Q)
    (n month : nat) (st : DcaState) : result DcaState :=
  match n with
  | O => Return st
  | S n' =>
      st' <- dca_step monthly_investment price_volatility month st ;;
      dca_loop monthly_investment price_volatility n' (S month) st'
  end.

Record DollarCostAveraging : Type := {
  dca_total_invested : Q;
  dca_final_value : Q;
  dca_total_shares : Q;
  dca_average_price : Q;
  dca_total_return : Q;
  dca_return_percentage : Q;
  dca_monthly_breakdown : list DcaStep
}.

Definition dollar_cost_averaging (monthly_investment : Q) (years : Z)
    (price_volatility : list Q) : result DollarCostAveraging :=
  let months := (years * 12)%Z in
  st <- dca_loop monthly_investment price_volatility (Z.to_nat months) 0
          {| total_invested := 0;
             total_shares := 0;
             base_price := 100;
             monthly_data := [] |} ;;
  let final_value := total_shares st * base_price st in
  let total_return := final_value - total_invested st in
  average_price <-
    (if Qgt_bool (total_shares st) 0
     then truediv (total_invested st) (total_shares st)
     else Return 0) ;;
  return_percentage <-
    (if Qgt_bool (total_invested st) 0 then
       p <- truediv total_return (total_invested st) ;;
       Return (p * 100)
     else Return 0) ;;
  Return {| dca_total_invested := total_invested st;
            dca_final_value := final_value;
            dca_total_shares := total_shares st;
            dca_average_price := average_price;
            dca_total_return := total_return;
            dca_return_percentage := return_percentage;
            dca_monthly_breakdown := monthly_data st |}.

(** ** rule_of_72 *)

Definition rule_of_72 (annual_return : Q) : result pyfloat :=
  if Qeq_bool annual_return 0 then Return Infinity
  else
    q <- truediv 72 (annual_return * 100) ;;
    Return (Finite q).

(** * Predicates used in the statements *)

(** The prices of consecutive monthly records: each one is the previous
    price (the first one: [base]) changed by that month's percentage. *)
Fixpoint price_chain (price_volatility : list Q) (base : Q) (month : nat)
    (steps : list DcaStep) : Prop :=
  match steps with
  | [] => True
  | s :: rest =>
      ms_price s = base * (1 + price_change price_volatility month / 100) /\
      price_chain price_volatility (ms_price s) (S month) rest
  end.

(** The yearly records of consecutive years: each one pays its dividends on
    the value before it ([value] for the first one), reinvests them, and
    then applies the price appreciation. *)
Fixpoint dividend_chain (dividend_yield price_appreciation value : Q)
    (year : Z) (steps : list DividendStep) : Prop :=
  match steps with
  | [] => True
  | s :: rest =>
      ds_year s = year /\
      ds_dividends s = value * dividend_yield /\
      ds_value s = (value + ds_dividends s) * (1 + price_appreciation) /\
      dividend_chain dividend_yield price_appreciation (ds_value s)
        (year + 1) rest
  end.

Definition sum_dividends (steps : list DividendStep) : Q :=
  fold_right (fun s acc => ds_dividends s + acc) 0 steps.

(** * Basic facts about the primitives *)

(** [returns c v]: the computation [c] raises nothing and its value is the
    rational [v]. *)
Definition returns (c : result Q) (v : Q) : Prop :=
  exists a, c = Return a /\ a == v.

Lemma Qgt_bool_true (x y : Q) : Qgt_bool x y = true <-> y < x.
Proof.
  unfold Qgt_bool. rewrite negb_true_iff.
  split; intro H.
  - apply Qnot_le_lt. intro Hle. apply Qle_bool_iff in Hle. congruence.
  - destruct (Qle_bool x y) eqn:E; [|reflexivity].
    apply Qle_bool_iff in E. exfalso. apply (Qlt_not_le _ _ H E).
Qed.

Lemma Qgt_bool_false (x y : Q) : Qgt_bool x y = false <-> x <= y.
Proof.
  unfold Qgt_bool. rewrite negb_false_iff. apply Qle_bool_iff.
Qed.

Lemma Qeq_bool_false (x y : Q) : Qeq_bool x y = false <-> ~ x == y.
Proof.
  split.
  - intros H E. apply Qeq_bool_iff in E. congruence.
  - intro H. destruct (Qeq_bool x y) eqn:E; [|reflexivity].
    apply Qeq_bool_iff in E. contradiction.
Qed.

Lemma truediv_Return (x y : Q) : ~ y == 0 -> truediv x y = Return (x / y).
Proof.
  intro H. unfold truediv. apply Qeq_bool_false in H. now rewrite H.
Qed.

Lemma truediv_Raise (x y : Q) : y == 0 -> truediv x y = Raise ZeroDivisionError.
Proof.
  intro H. unfold truediv. apply Qeq_bool_iff in H. now rewrite H.
Qed.

Lemma truediv_inv (x y a : Q) :
  truediv x y = Return a -> ~ y == 0 /\ a = x / y.
Proof.
  unfold truediv. destruct (Qeq_bool y 0) eqn:E; [discriminate|].
  intro H. injection H as <-. split; [now apply Qeq_bool_false | reflexivity].
Qed.

Lemma math_pow_int_Return (x : Q) (n : Z) :
  ~ x == 0 \/ (0 <= n)%Z -> math_pow_int x n = Return (x ^ n).
Proof.
  intros [H|H]; unfold math_pow_int.
  - apply Qeq_bool_false in H. now rewrite H.
  - apply Z.ltb_ge in H. rewrite H. now rewrite andb_false_r.
Qed.

Lemma math_pow_int_inv (x : Q) (n : Z) (a : Q) :
  math_pow_int x n = Return a -> a = x ^ n /\ (~ x == 0 \/ (0 <= n)%Z).
Proof.
  unfold math_pow_int.
  destruct (Qeq_bool x 0) eqn:E; destruct (n <? 0)%Z eqn:L; simpl;
    try discriminate; intro H; injection H as <-; split; try reflexivity.
  - right. now apply Z.ltb_ge.
  - left. now apply Qeq_bool_false.
  - left. now apply Qeq_bool_false.
Qed.

Lemma inject_Z_nonzero (z : Z) : z <> 0%Z -> ~ inject_Z z == 0.
Proof.
  intros H E. apply H. unfold Qeq in E. simpl in E. lia.
Qed.

Lemma inject_Z_pos (z : Z) : (0 < z)%Z -> 0 < inject_Z z.
Proof.
  intro H. unfold Qlt. simpl. lia.
Qed.

(** The deflator of the constructed calculator, [1.04 ^ years], is never
    zero, so the real value is always defined. *)
Lemma deflator_nonzero (years : Z) : ~ (1 + inflation_rate init) ^ years == 0.
Proof.
  apply Qpower_not_0. unfold init; simpl. intro H. discriminate H.
Qed.

(** ** compound_interest, unfolded *)

(** What a returned result of [compound_interest] is made of. *)
Lemma compound_interest_inv (self : InvestmentCalculator)
    (P r : Q) (years cpy : Z) (C : Q) (res : CompoundInterest) :
  compound_interest self P r years cpy C = Return res ->
  let rpp := r / inject_Z cpy in
  let n := (years * cpy)%Z in
  exists fp fc,
    ~ inject_Z cpy == 0 /\
    future_value_principal P rpp n = Return fp /\
    future_value_contributions C rpp n = Return fc /\
    ci_future_value res = fp + fc /\
    ci_total_invested res = P + C * inject_Z n /\
    ci_total_interest res = fp + fc - (P + C * inject_Z n) /\
    (ci_total_invested res <= 0 -> ci_return_percentage res = 0).
Proof.
  intros H rpp n. unfold compound_interest in H.
  destruct (truediv r (inject_Z cpy)) as [rate|] eqn:Er; [|discriminate].
  destruct (truediv_inv _ _ _ Er) as [Hc ->]. cbn [bind] in H.
  fold rpp n in H.
  destruct (future_value_principal P rpp n) as [fp|] eqn:Ep; [|discriminate].
  destruct (future_value_contributions C rpp n) as [fc|] eqn:Ec; [|discriminate].
  cbn [bind] in H.
  destruct (math_pow_int (1 + inflation_rate self) years) as [d|]; [|discriminate].
  cbn [bind] in H.
  destruct (truediv (fp + fc) d) as [rv|]; [|discriminate].
  cbn [bind] in H.
  exists fp, fc.
  destruct (Qgt_bool (P + C * inject_Z n) 0) eqn:Eg; cbn [bind] in H.
  - destruct (truediv (fp + fc - (P + C * inject_Z n)) (P + C * inject_Z n));
      [|discriminate].
    cbn [bind] in H. injection H as <-. cbn.
    repeat split; auto.
    intro Hle. apply Qgt_bool_true in Eg. exfalso. apply (Qlt_not_le _ _ Eg Hle).
  - injection H as <-. cbn. repeat split; auto.
Qed.

(** When [compound_interest] returns on the constructed calculator. *)
Lemma compound_interest_returns (P r : Q) (years cpy : Z) (C : Q) :
  let rpp := r / inject_Z cpy in
  let n := (years * cpy)%Z in
  cpy <> 0%Z ->
  ~ 1 + rpp == 0 \/ (0 <= n)%Z ->
  exists res, compound_interest init P r years cpy C = Return res.
Proof.
  intros rpp n Hc Hp. unfold compound_interest.
  rewrite (truediv_Return r _ (inject_Z_nonzero _ Hc)). cbn [bind].
  fold rpp n. unfold future_value_principal.
  rewrite (math_pow_int_Return _ _ Hp). cbn [bind].
  assert (Hfc : exists fc, future_value_contributions C rpp n = Return fc).
  { unfold future_value_contributions.
    destruct (Qgt_bool C 0 && Qgt_bool rpp 0) eqn:E; [|eauto].
    apply andb_true_iff in E as [_ E]. apply Qgt_bool_true in E.
    rewrite (math_pow_int_Return _ _ Hp). cbn [bind].
    rewrite truediv_Return; [cbn [bind]; eauto|].
    intro H0. rewrite H0 in E. apply (Qlt_irrefl _ E). }
  destruct Hfc as [fc ->]. cbn [bind].
  rewrite (math_pow_int_Return (1 + inflation_rate init) years)
    by (left; unfold init; simpl; intro H; discriminate H).
  cbn [bind]. rewrite (truediv_Return _ _ (deflator_nonzero years)). cbn [bind].
  match goal with |- context [if ?b then _ else _] => destruct b eqn:Eg end.
  - apply Qgt_bool_true in Eg. rewrite truediv_Return; [cbn [bind]; eauto|].
    intro H0. rewrite H0 in Eg. apply (Qlt_irrefl _ Eg).
  - cbn [bind]. eauto.
Qed.

(** * Zero and negative rates in [compound_interest] *)

Lemma zero_rate_per_period (cpy : Z) : 0 / inject_Z cpy == 0.
Proof. unfold Qdiv. ring. Qed.

Lemma future_value_principal_zero_rate (P rpp : Q) (n : Z) :
  rpp == 0 -> returns (future_value_principal P rpp n) P.
Proof.
  intro H0. unfold future_value_principal.
  rewrite math_pow_int_Return.
  - cbn [bind]. exists (P * (1 + rpp) ^ n). split; [reflexivity|].
    rewrite H0. setoid_replace (1 + 0) with 1 by ring.
    rewrite Qpower_1. ring.
  - left. rewrite H0. intro H. discriminate H.
Qed.

(** The linear form is taken whenever the contribution and the period rate
    are not both strictly positive. *)
Lemma future_value_contributions_linear (C rpp : Q) (n : Z) :
  ~ (0 < C /\ 0 < rpp) ->
  future_value_contributions C rpp n = Return (C * inject_Z n).
Proof.
  intro H. unfold future_value_contributions.
  destruct (Qgt_bool C 0 && Qgt_bool rpp 0) eqn:E; [|reflexivity].
  apply andb_true_iff in E as [E1 E2].
  apply Qgt_bool_true in E1. apply Qgt_bool_true in E2. tauto.
Qed.

(** C6: with [annual_rate = 0] the principal component is exactly [P], the
    contributions component is exactly [C * n] for the period count
    [n = years * compounds_per_year], and the returned future value is
    [P + C * n]. *)
Theorem compound_interest_zero_rate (P C : Q) (years cpy : Z) :
  cpy <> 0%Z ->
  returns (future_value_principal P (0 / inject_Z cpy) (years * cpy)) P /\
  returns (future_value_contributions C (0 / inject_Z cpy) (years * cpy))
    (C * inject_Z (years * cpy)) /\
  exists res,
    compound_interest init P 0 years cpy C = Return res /\
    ci_future_value res == P + C * inject_Z (years * cpy).
Proof.
  intro Hc.
  pose proof (zero_rate_per_period cpy) as H0.
  pose proof (future_value_principal_zero_rate P _ (years * cpy) H0) as Hp.
  assert (Hl : future_value_contributions C (0 / inject_Z cpy) (years * cpy)
               = Return (C * inject_Z (years * cpy))).
  { apply future_value_contributions_linear. intros [_ H].
    rewrite H0 in H. apply (Qlt_irrefl _ H). }
  split; [exact Hp|]. split.
  - exists (C * inject_Z (years * cpy)). split; [exact Hl | reflexivity].
  - destruct (compound_interest_returns P 0 years cpy C Hc) as [res Hres].
    { left. rewrite H0. intro H. discriminate H. }
    exists res. split; [exact Hres|].
    destruct (compound_interest_inv _ _ _ _ _ _ _ Hres)
      as (fp & fc & _ & Efp & Efc & Efv & _).
    destruct Hp as (fp' & Efp' & Hfp).
    rewrite Efp in Efp'. injection Efp' as <-.
    rewrite Efc in Hl. injection Hl as ->.
    rewrite Efv, Hfp. reflexivity.
Qed.

Lemma compound_interest_zero_rate_witness :
  exists res,
    compound_interest init 1000 0 10 12 50 = Return res /\
    ci_future_value res == 1000 + 50 * inject_Z (10 * 12).
Proof.
  apply (compound_interest_zero_rate 1000 50 10 12). discriminate.
Defined.

(** C10: with a negative annual rate (and a positive number of compounds
    per year, so that the period rate is negative) and a positive
    contribution, the contributions component is the linear form
    [monthly_contribution * total_periods] and the future value is the
    principal growth plus that; the linear form is taken whenever the
    contribution and the period rate are not both strictly positive. *)
Theorem compound_interest_negative_rate_linear
    (P r : Q) (years cpy : Z) (C : Q) :
  r < 0 -> (0 < cpy)%Z -> 0 < C ->
  let rpp := r / inject_Z cpy in
  let n := (years * cpy)%Z in
  rpp < 0 /\
  future_value_contributions C rpp n = Return (C * inject_Z n) /\
  (forall res, compound_interest init P r years cpy C = Return res ->
     ci_future_value res = P * (1 + rpp) ^ n + C * inject_Z n) /\
  ((0 <= years)%Z ->
     exists res, compound_interest init P r years cpy C = Return res) /\
  (forall C' rpp' n', ~ (0 < C' /\ 0 < rpp') ->
     future_value_contributions C' rpp' n' = Return (C' * inject_Z n')).
Proof.
  intros Hr Hc HC rpp n.
  assert (Hneg : rpp < 0).
  { unfold rpp. pose proof (inject_Z_pos _ Hc) as Hpos.
    apply Qlt_shift_div_r; [exact Hpos|]. now rewrite Qmult_0_l. }
  assert (Hl : future_value_contributions C rpp n = Return (C * inject_Z n)).
  { apply future_value_contributions_linear. intros [_ H].
    apply (Qlt_irrefl 0). now apply Qlt_trans with rpp. }
  split; [exact Hneg|]. split; [exact Hl|]. split; [|split].
  - intros res Hres.
    destruct (compound_interest_inv _ _ _ _ _ _ _ Hres)
      as (fp & fc & _ & Efp & Efc & Efv & _).
    fold rpp n in Efp, Efc. rewrite Efc in Hl. injection Hl as ->.
    unfold future_value_principal in Efp.
    destruct (math_pow_int (1 + rpp) n) as [g|] eqn:Eg; [|discriminate].
    apply math_pow_int_inv in Eg as [-> _]. cbn [bind] in Efp.
    injection Efp as <-. exact Efv.
  - intro Hy. apply compound_interest_returns; [lia|]. right. fold n.
    unfold n. apply Z.mul_nonneg_nonneg; lia.
  - intros C' rpp' n'. apply future_value_contributions_linear.
Qed.

Lemma compound_interest_negative_rate_linear_witness :
  future_value_contributions 50 (- (6 # 100) / inject_Z 12) (10 * 12)
  = Return (50 * inject_Z (10 * 12)).
Proof.
  exact (proj1 (proj2 (compound_interest_negative_rate_linear
                         1000 (- (6 # 100)) 10 12 50
                         eq_refl eq_refl eq_refl))).
Defined.

(** * Degenerate cases of [calculate_cagr] and [rule_of_72] *)

Lemma calculate_cagr_degenerate (real_pow : Q -> Q -> Q)
    (beginning_value ending_value : Q) (years : Z) :
  years = 0%Z \/ beginning_value == 0 ->
  calculate_cagr real_pow beginning_value ending_value years = Return 0.
Proof.
  intros [-> | H]; unfold calculate_cagr.
  - reflexivity.
  - apply Qeq_bool_iff in H. rewrite H. now rewrite orb_true_r.
Qed.

(** C9: [calculate_cagr] returns 0 when [years = 0] or the beginning value
    is 0; [rule_of_72] returns the infinite sentinel at a zero return and
    [72 / (annual_return * 100)] otherwise. *)
Theorem cagr_rule_of_72_degenerate :
  (forall real_pow beginning_value ending_value years,
     years = 0%Z \/ beginning_value == 0 ->
     calculate_cagr real_pow beginning_value ending_value years = Return 0) /\
  (forall annual_return,
     annual_return == 0 -> rule_of_72 annual_return = Return Infinity) /\
  (forall annual_return,
     ~ annual_return == 0 ->
     rule_of_72 annual_return = Return (Finite (72 / (annual_return * 100)))).
Proof.
  split; [exact calculate_cagr_degenerate|]. split.
  - intros a H. unfold rule_of_72. apply Qeq_bool_iff in H. now rewrite H.
  - intros a H. unfold rule_of_72.
    pose proof H as H'. apply Qeq_bool_false in H'. rewrite H'.
    rewrite truediv_Return; [reflexivity|].
    intro E. apply H. apply Qmult_integral in E as [E|E]; [exact E|].
    discriminate E.
Qed.

Lemma cagr_rule_of_72_degenerate_witness :
  calculate_cagr (fun _ _ => 1) 1000 2000 0 = Return 0 /\
  calculate_cagr (fun _ _ => 1) 0 2000 5 = Return 0 /\
  rule_of_72 0 = Return Infinity /\
  rule_of_72 (8 # 100) = Return (Finite (72 / ((8 # 100) * 100))).
Proof.
  destruct cagr_rule_of_72_degenerate as (Hc & Hi & Hf).
  split; [apply Hc; left; reflexivity|].
  split; [apply Hc; right; reflexivity|].
  split; [apply Hi; reflexivity|].
  apply Hf. intro H; discriminate H.
Defined.

(** * Percentages with a zero denominator *)

(** [compound_interest] guards its percentage. *)
Lemma compound_interest_zero_invested (self : InvestmentCalculator)
    (P r : Q) (years cpy : Z) (C : Q) (res : CompoundInterest) :
  compound_interest self P r years cpy C = Return res ->
  ci_total_invested res == 0 -> ci_return_percentage res = 0.
Proof.
  intros Hres H0.
  destruct (compound_interest_inv _ _ _ _ _ _ _ Hres)
    as (fp & fc & _ & _ & _ & _ & _ & _ & Hg).
  apply Hg. rewrite H0. apply Qle_refl.
Qed.

(** [dollar_cost_averaging] guards its percentage. *)
Lemma dollar_cost_averaging_zero_invested (monthly_investment : Q) (years : Z)
    (price_volatility : list Q) (res : DollarCostAveraging) :
  dollar_cost_averaging monthly_investment years price_volatility = Return res ->
  dca_total_invested res == 0 -> dca_return_percentage res = 0.
Proof.
  unfold dollar_cost_averaging. intros Hres H0.
  destruct (dca_loop _ _ _ _ _) as [st|]; [|discriminate].
  cbn [bind] in Hres.
  destruct (if Qgt_bool (total_shares st) 0 then _ else _) as [avg|];
    [|discriminate].
  cbn [bind] in Hres.
  destruct (Qgt_bool (total_invested st) 0) eqn:Eg.
  - destruct (truediv _ (total_invested st)) as [p|]; [|discriminate].
    cbn [bind] in Hres. injection Hres as <-. cbn in H0.
    apply Qgt_bool_true in Eg. rewrite H0 in Eg.
    exfalso. apply (Qlt_irrefl _ Eg).
  - cbn [bind] in Hres. injection Hres as <-. reflexivity.
Qed.

(** C2: at a zero initial investment [dividend_reinvestment] divides the
    total return by the initial investment without a guard and raises
    [ZeroDivisionError], whatever the other arguments are. *)
Theorem dividend_reinvestment_zero_investment_raises :
  forall (real_pow : Q -> Q -> Q) (dividend_yield : Q) (years : Z)
         (price_appreciation : Q),
    dividend_reinvestment real_pow 0 dividend_yield years price_appreciation
    = Raise ZeroDivisionError.
Proof.
  intros. unfold dividend_reinvestment.
  rewrite truediv_Raise; reflexivity.
Qed.

(** * The yearly steps of [dividend_reinvestment] *)

Lemma Qpower_succ_nat (q : Q) (n : nat) :
  q ^ Z.of_nat (S n) == q * q ^ Z.of_nat n.
Proof.
  rewrite Nat2Z.inj_succ. unfold Z.succ.
  rewrite Qpower_plus' by lia. rewrite Qpower_1_r. ring.
Qed.

Section DividendLoop.

Variables dividend_yield price_appreciation : Q.

(** One year: dividends on the current value, then reinvestment, then
    appreciation. *)
Lemma dividend_step_order (year : Z) (st st' : DividendState) :
  st' = dividend_step dividend_yield price_appreciation year st ->
  let dividends := current_value st * dividend_yield in
  total_dividends st' = total_dividends st + dividends /\
  current_value st'
  = (current_value st + dividends) * (1 + price_appreciation) /\
  yearly_data st'
  = yearly_data st ++ [ {| ds_year := year;
                           ds_value := current_value st';
                           ds_dividends := dividends |} ].
Proof. intros ->. cbn. auto. Qed.

Lemma dividend_loop_chain (n : nat) :
  forall (year : Z) (st : DividendState),
  exists rest,
    yearly_data (dividend_loop dividend_yield price_appreciation n year st)
    = yearly_data st ++ rest /\
    length rest = n /\
    dividend_chain dividend_yield price_appreciation
      (current_value st) year rest /\
    total_dividends (dividend_loop dividend_yield price_appreciation n year st)
    == total_dividends st + sum_dividends rest.
Proof.
  induction n as [|n IH]; intros year st.
  - exists []. cbn. rewrite app_nil_r. repeat split; auto. ring.
  - remember (dividend_step dividend_yield price_appreciation year st)
      as st1 eqn:E1.
    destruct (IH (year + 1)%Z st1) as (rest & Hd & Hl & Hc & Ht).
    destruct (dividend_step_order year st st1 E1) as (Et & Ev & Ey).
    set (r := {| ds_year := year;
                 ds_value := current_value st1;
                 ds_dividends := current_value st * dividend_yield |}) in *.
    exists (r :: rest). cbn [dividend_loop]. rewrite <- E1.
    split; [|split; [|split]].
    + rewrite Hd, Ey. now rewrite <- app_assoc.
    + cbn. now rewrite Hl.
    + cbn [dividend_chain].
      split; [reflexivity|]. split; [reflexivity|]. split; [exact Ev|].
      exact Hc.
    + rewrite Ht, Et.
      change (sum_dividends (r :: rest))
        with (ds_dividends r + sum_dividends rest).
      change (ds_dividends r) with (current_value st * dividend_yield).
      ring.
Qed.

Lemma dividend_loop_value (n : nat) :
  forall (year : Z) (st : DividendState),
    current_value (dividend_loop dividend_yield price_appreciation n year st)
    == current_value st
       * ((1 + dividend_yield) * (1 + price_appreciation)) ^ Z.of_nat n.
Proof.
  induction n as [|n IH]; intros year st.
  - cbn. ring.
  - cbn [dividend_loop]. rewrite IH, Qpower_succ_nat.
    destruct (dividend_step_order year st _ eq_refl) as (_ & -> & _). ring.
Qed.

End DividendLoop.

(** C4: every yearly step takes the dividends on the current value, adds
    them to the running total, reinvests them and only then applies the
    price appreciation; the breakdown of a run is such a chain starting at
    the initial investment, year 1; with initial investment 1000, yield
    0.05 and appreciation 0.07 the value after year 1 is
    [(1000 * 1.05) * 1.07]. *)
Theorem dividend_reinvestment_step_order :
  (forall real_pow initial_investment dividend_yield years price_appreciation res,
     dividend_reinvestment real_pow initial_investment dividend_yield years
       price_appreciation = Return res ->
     length (dr_yearly_breakdown res) = Z.to_nat years /\
     dividend_chain dividend_yield price_appreciation initial_investment 1
       (dr_yearly_breakdown res) /\
     dr_total_dividends res == sum_dividends (dr_yearly_breakdown res) /\
     dr_final_value res
     == initial_investment
        * ((1 + dividend_yield) * (1 + price_appreciation))
          ^ Z.of_nat (Z.to_nat years)) /\
  (forall real_pow, exists res s,
     dividend_reinvestment real_pow 1000 (5 # 100) 1 (7 # 100) = Return res /\
     dr_yearly_breakdown res = [s] /\
     ds_year s = 1%Z /\
     ds_dividends s == 1000 * (5 # 100) /\
     ds_value s == (1000 * (105 # 100)) * (107 # 100) /\
     dr_final_value res == (1000 * (105 # 100)) * (107 # 100)).
Proof.
  split.
  - intros real_pow i y years a res Hres.
    unfold dividend_reinvestment in Hres.
    set (st0 := {| current_value := i; total_dividends := 0;
                   yearly_data := [] |}) in Hres.
    destruct (truediv _ i) as [p|]; [|discriminate]. cbn [bind] in Hres.
    destruct (calculate_cagr _ _ _ _) as [c|]; [|discriminate].
    cbn [bind] in Hres. injection Hres as <-.
    cbn [dr_yearly_breakdown dr_total_dividends dr_final_value].
    destruct (dividend_loop_chain y a (Z.to_nat years) 1 st0)
      as (rest & Hd & Hl & Hc & Ht).
    change (yearly_data st0 ++ rest) with rest in Hd. rewrite Hd.
    split; [exact Hl|]. split; [exact Hc|]. split.
    + rewrite Ht. change (total_dividends st0) with 0. ring.
    + apply (dividend_loop_value y a (Z.to_nat years) 1 st0).
  - intro real_pow. eexists. eexists.
    split; [vm_compute; reflexivity|].
    cbn [dr_yearly_breakdown dr_final_value].
    split; [reflexivity|]. cbn [ds_year ds_dividends ds_value].
    repeat split; vm_compute; reflexivity.
Qed.

Lemma dividend_reinvestment_step_order_witness :
  exists res,
    dividend_reinvestment (fun _ _ => 1) 1000 (5 # 100) 2 (7 # 100)
    = Return res /\
    dividend_chain (5 # 100) (7 # 100) 1000 1 (dr_yearly_breakdown res).
Proof.
  eexists. split; [vm_compute; reflexivity|].
  refine (proj1 (proj2 (proj1 dividend_reinvestment_step_order
                          (fun _ _ => 1) 1000 (5 # 100) 2%Z (7 # 100) _ _))).
  vm_compute; reflexivity.
Defined.

(** * The monthly prices of [dollar_cost_averaging] *)

Lemma price_change_in_range (price_volatility : list Q) (month : nat) (x : Q) :
  nth_error price_volatility month = Some x ->
  price_change price_volatility month = x.
Proof.
  intro H. unfold price_change.
  assert (Hlt : (month < length price_volatility)%nat).
  { apply nth_error_Some. congruence. }
  apply Nat.ltb_lt in Hlt. rewrite Hlt.
  now apply nth_error_nth.
Qed.

Lemma price_change_out_of_range (price_volatility : list Q) (month : nat) :
  (length price_volatility <= month)%nat ->
  price_change price_volatility month = 0.
Proof.
  intro H. unfold price_change. apply Nat.ltb_ge in H. now rewrite H.
Qed.

Section DcaLoop.

Variable monthly_investment : Q.
Variable price_volatility : list Q.

(** One month: the price is the base price changed by the month's
    percentage, and it becomes the next base price. *)
Lemma dca_step_inv (month : nat) (st st' : DcaState) :
  dca_step monthly_investment price_volatility month st = Return st' ->
  let price :=
    base_price st * (1 + price_change price_volatility month / 100) in
  ~ price == 0 /\
  base_price st' = price /\
  exists s, monthly_data st' = monthly_data st ++ [s] /\
            ms_price s = price /\
            ms_month s = (Z.of_nat month + 1)%Z.
Proof.
  intros H price. unfold dca_step in H. fold price in H.
  destruct (truediv monthly_investment price) as [sh|] eqn:E; [|discriminate].
  destruct (truediv_inv _ _ _ E) as [Hp _].
  cbn [bind] in H. injection H as <-.
  cbn [base_price monthly_data].
  split; [exact Hp|]. split; [reflexivity|].
  eexists. split; [reflexivity|]. split; reflexivity.
Qed.

Lemma dca_loop_chain (n : nat) :
  forall (month : nat) (st st' : DcaState),
    dca_loop monthly_investment price_volatility n month st = Return st' ->
    exists rest,
      monthly_data st' = monthly_data st ++ rest /\
      length rest = n /\
      price_chain price_volatility (base_price st) month rest.
Proof.
  induction n as [|n IH]; intros month st st' H.
  - injection H as <-. exists []. rewrite app_nil_r. cbn. auto.
  - cbn [dca_loop] in H.
    destruct (dca_step monthly_investment price_volatility month st)
      as [st1|] eqn:E1; [|discriminate].
    cbn [bind] in H.
    destruct (dca_step_inv _ _ _ E1) as (_ & Hb & s & Hs & Hps & _).
    destruct (IH _ _ _ H) as (rest & Hd & Hl & Hc).
    exists (s :: rest). split; [|split].
    + rewrite Hd, Hs. now rewrite <- app_assoc.
    + cbn. now rewrite Hl.
    + cbn [price_chain]. split; [exact Hps|].
      rewrite Hps, <- Hb. exact Hc.
Qed.

(** Nothing is raised as long as no month loses the whole price. *)
Lemma dca_loop_returns (n : nat) :
  (forall month, ~ price_change price_volatility month == - (100)) ->
  forall (month : nat) (st : DcaState),
    ~ base_price st == 0 ->
    exists st',
      dca_loop monthly_investment price_volatility n month st = Return st'.
Proof.
  intro Hpv. induction n as [|n IH]; intros month st Hb.
  - eexists. reflexivity.
  - cbn [dca_loop]. unfold dca_step.
    set (price :=
           base_price st * (1 + price_change price_volatility month / 100)).
    assert (Hp : ~ price == 0).
    { unfold price. intro E. apply Qmult_integral in E as [E|E]; [tauto|].
      apply (Hpv month).
      setoid_replace (price_change price_volatility month)
        with ((1 + price_change price_volatility month / 100) * 100 - 100)
        by field.
      rewrite E. ring. }
    rewrite (truediv_Return _ _ Hp). cbn [bind]. apply IH. exact Hp.
Qed.

End DcaLoop.

Lemma dollar_cost_averaging_returns (monthly_investment : Q) (years : Z)
    (price_volatility : list Q) :
  (forall month, ~ price_change price_volatility month == - (100)) ->
  exists res,
    dollar_cost_averaging monthly_investment years price_volatility
    = Return res.
Proof.
  intro Hpv. unfold dollar_cost_averaging.
  destruct (dca_loop_returns monthly_investment price_volatility
              (Z.to_nat (years * 12)) Hpv 0
              {| total_invested := 0; total_shares := 0;
                 base_price := 100; monthly_data := [] |}) as [st ->].
  { cbn. intro H; discriminate H. }
  cbn [bind].
  assert (Ha : exists avg,
             (if Qgt_bool (total_shares st) 0
              then truediv (total_invested st) (total_shares st)
              else Return 0) = Return avg).
  { destruct (Qgt_bool (total_shares st) 0) eqn:E; [|eauto].
    apply Qgt_bool_true in E. rewrite truediv_Return; [eauto|].
    intro H0. rewrite H0 in E. apply (Qlt_irrefl _ E). }
  destruct Ha as [avg ->]. cbn [bind].
  destruct (Qgt_bool (total_invested st) 0) eqn:E.
  - apply Qgt_bool_true in E. rewrite truediv_Return; [cbn [bind]; eauto|].
    intro H0. rewrite H0 in E. apply (Qlt_irrefl _ E).
  - cbn [bind]. eauto.
Qed.

(** C5: each month's change is the caller's entry for that month when the
    index is in range and 0 otherwise; each month's price is the previous
    month's price (100 for the first month) changed by that percentage; a
    run raises nothing unless some month's change is -100 percent; with
    changes [10, -10] the price of month 2 is 110 * 0.9 = 99, not 90. *)
Theorem dollar_cost_averaging_compounding_base :
  (forall price_volatility month,
     (forall x, nth_error price_volatility month = Some x ->
                price_change price_volatility month = x) /\
     ((length price_volatility <= month)%nat ->
      price_change price_volatility month = 0)) /\
  (forall monthly_investment years price_volatility res,
     dollar_cost_averaging monthly_investment years price_volatility
     = Return res ->
     length (dca_monthly_breakdown res) = Z.to_nat (years * 12) /\
     price_chain price_volatility 100 0 (dca_monthly_breakdown res)) /\
  (forall monthly_investment years price_volatility,
     (forall month, ~ price_change price_volatility month == - (100)) ->
     exists res,
       dollar_cost_averaging monthly_investment years price_volatility
       = Return res) /\
  (exists res s1 s2 rest,
     dollar_cost_averaging 100 1 [10; - (10)] = Return res /\
     dca_monthly_breakdown res = s1 :: s2 :: rest /\
     ms_price s1 == 110 /\
     ms_price s2 == 110 * (9 # 10) /\
     ms_price s2 == 99 /\
     ~ ms_price s2 == 90).
Proof.
  split; [|split; [|split]].
  - intros pv m. split.
    + apply price_change_in_range.
    + apply price_change_out_of_range.
  - intros mi years pv res H. unfold dollar_cost_averaging in H.
    destruct (dca_loop mi pv _ _ _) as [st|] eqn:El; [|discriminate].
    cbn [bind] in H.
    destruct (if Qgt_bool (total_shares st) 0 then _ else _) as [avg|];
      [|discriminate].
    cbn [bind] in H.
    destruct (if Qgt_bool (total_invested st) 0 then _ else _) as [rp|];
      [|discriminate].
    cbn [bind] in H. injection H as <-. cbn [dca_monthly_breakdown].
    destruct (dca_loop_chain _ _ _ _ _ _ El) as (rest & Hd & Hl & Hc).
    cbn [monthly_data base_price app] in Hd, Hc. rewrite Hd. auto.
  - exact dollar_cost_averaging_returns.
  - do 4 eexists.
    split; [vm_compute; reflexivity|].
    cbn [dca_monthly_breakdown]. split; [reflexivity|].
    cbn [ms_price].
    split; [vm_compute; reflexivity|].
    split; [vm_compute; reflexivity|].
    split; [vm_compute; reflexivity|].
    intro H. vm_compute in H. discriminate H.
Qed.

Lemma dollar_cost_averaging_compounding_base_witness :
  (exists res,
     dollar_cost_averaging 100 1 [10; - (10)] = Return res /\
     length (dca_monthly_breakdown res) = Z.to_nat (1 * 12) /\
     price_chain [10; - (10)] 100 0 (dca_monthly_breakdown res)) /\
  (exists res, dollar_cost_averaging 250 3 [10; - (10)] = Return res).
Proof.
  split.
  - eexists. split; [vm_compute; reflexivity|].
    refine (proj1 (proj2 dollar_cost_averaging_compounding_base)
              100 1%Z [10; - (10)] _ _).
    vm_compute; reflexivity.
  - refine (proj1 (proj2 (proj2 dollar_cost_averaging_compounding_base))
              250 3%Z [10; - (10)] _).
    intros [|[|month]] H; vm_compute in H; discriminate H.
Defined.

(** * Powers that differ from 1 *)



(** * When the solver functions return *)



(** * [retirement_planning] *)

(** What a returned plan is made of. *)
Lemma retirement_planning_inv (self : InvestmentCalculator)
    (current_age retirement_age : Z)
    (current_savings monthly_contribution expected_return
       desired_monthly_income : Q) (plan : RetirementPlan) :
  retirement_planning self current_age retirement_age current_savings
    monthly_contribution expected_return desired_monthly_income = Return plan ->
  exists savings capital,
    compound_interest self current_savings expected_return
      (retirement_age - current_age) 12 monthly_contribution = Return savings /\
    calculate_required_capital desired_monthly_income
      (life_expectancy - retirement_age) (expected_return * (7 # 10))
    = Return capital /\
    rp_projected_retirement_savings plan = ci_future_value savings /\
    rp_required_capital plan = capital /\
    rp_years_to_retirement plan = (retirement_age - current_age)%Z /\
    rp_retirement_years plan = (life_expectancy - retirement_age)%Z /\
    rp_shortfall plan
    = (if Qgt_bool (capital - ci_future_value savings) 0
       then capital - ci_future_value savings else 0) /\
    (if Qgt_bool (capital - ci_future_value savings) 0
     then calculate_required_monthly_contribution current_savings capital
            expected_return (retirement_age - current_age)
     else Return monthly_contribution)
    = Return (rp_required_monthly_contribution plan).
Proof.
  unfold retirement_planning. intro H.
  destruct (compound_interest _ _ _ _ _ _) as [savings|]; [|discriminate].
  cbn [bind] in H.
  destruct (calculate_required_capital _ _ _) as [capital|]; [|discriminate].
  cbn [bind] in H.
  destruct (if Qgt_bool (capital - ci_future_value savings) 0 then _ else _)
    as [rm|] eqn:Erm; [|discriminate].
  cbn [bind] in H. injection H as <-. cbn.
  exists savings, capital. repeat split; try reflexivity. exact Erm.
Qed.

(** C3: the plan is built from the projection that [compound_interest]
    returns and the capital that [calculate_required_capital] returns; the
    reported shortfall is never negative; when the projected savings reach
    or exceed the required capital the plan reports a shortfall of exactly
    0 and the input monthly contribution, and the solver is not called;
    when the signed gap [required_capital - projected_savings] is positive
    the plan reports that gap and the contribution the solver returns for
    the required capital, and an exception of the solver is the planner's
    exception. *)
Theorem retirement_planning_shortfall_clamp (self : InvestmentCalculator)
    (current_age retirement_age : Z)
    (current_savings monthly_contribution expected_return
       desired_monthly_income : Q) :
  (forall plan,
     retirement_planning self current_age retirement_age current_savings
       monthly_contribution expected_return desired_monthly_income
     = Return plan ->
     exists savings capital,
       compound_interest self current_savings expected_return
         (retirement_age - current_age) 12 monthly_contribution
       = Return savings /\
       calculate_required_capital desired_monthly_income
         (life_expectancy - retirement_age) (expected_return * (7 # 10))
       = Return capital /\
       rp_projected_retirement_savings plan = ci_future_value savings /\
       rp_required_capital plan = capital /\
       0 <= rp_shortfall plan /\
       (capital < ci_future_value savings ->
        rp_shortfall plan = 0 /\
        rp_required_monthly_contribution plan = monthly_contribution) /\
       (capital - ci_future_value savings <= 0 ->
        rp_shortfall plan = 0 /\
        rp_required_monthly_contribution plan = monthly_contribution) /\
       (0 < capital - ci_future_value savings ->
        rp_shortfall plan = capital - ci_future_value savings /\
        calculate_required_monthly_contribution current_savings capital
          expected_return (retirement_age - current_age)
        = Return (rp_required_monthly_contribution plan))) /\
  (forall savings capital,
     compound_interest self current_savings expected_return
       (retirement_age - current_age) 12 monthly_contribution
     = Return savings ->
     calculate_required_capital desired_monthly_income
       (life_expectancy - retirement_age) (expected_return * (7 # 10))
     = Return capital ->
     (capital <= ci_future_value savings ->
      exists plan,
        retirement_planning self current_age retirement_age current_savings
          monthly_contribution expected_return desired_monthly_income
        = Return plan /\
        rp_projected_retirement_savings plan = ci_future_value savings /\
        rp_required_capital plan = capital /\
        rp_shortfall plan = 0 /\
        rp_required_monthly_contribution plan = monthly_contribution) /\
     (ci_future_value savings < capital ->
      forall c,
        calculate_required_monthly_contribution current_savings capital
          expected_return (retirement_age - current_age) = Return c ->
        exists plan,
          retirement_planning self current_age retirement_age current_savings
            monthly_contribution expected_return desired_monthly_income
          = Return plan /\
          rp_projected_retirement_savings plan = ci_future_value savings /\
          rp_required_capital plan = capital /\
          rp_shortfall plan = capital - ci_future_value savings /\
          rp_required_monthly_contribution plan = c) /\
     (ci_future_value savings < capital ->
      forall e,
        calculate_required_monthly_contribution current_savings capital
          expected_return (retirement_age - current_age) = Raise e ->
        retirement_planning self current_age retirement_age current_savings
          monthly_contribution expected_return desired_monthly_income
        = Raise e)).
Proof.
  split.
  - intros plan H.
    destruct (retirement_planning_inv _ _ _ _ _ _ _ _ H)
      as (savings & capital & Hs & Hc & Ep & Ec & _ & _ & Es & Em).
    exists savings, capital.
    split; [exact Hs|]. split; [exact Hc|].
    split; [exact Ep|]. split; [exact Ec|]. rewrite Es.
    destruct (Qgt_bool (capital - ci_future_value savings) 0) eqn:Eg.
    + apply Qgt_bool_true in Eg.
      split; [apply Qlt_le_weak; exact Eg|].
      split; [|split].
      * intro Hlt. exfalso. lra.
      * intro Hle. exfalso. lra.
      * intros _. split; [reflexivity | exact Em].
    + apply Qgt_bool_false in Eg. injection Em as Em.
      split; [apply Qle_refl|].
      split; [|split].
      * intros _. split; [reflexivity | now symmetry].
      * intros _. split; [reflexivity | now symmetry].
      * intro Hlt. exfalso. lra.
  - intros savings capital Hs Hc.
    unfold retirement_planning. rewrite Hs. cbn [bind]. rewrite Hc.
    cbn [bind].
    split; [|split].
    + intro Hle.
      assert (Eg : Qgt_bool (capital - ci_future_value savings) 0 = false)
        by (apply Qgt_bool_false; lra).
      rewrite Eg. cbn [bind]. eexists. split; [reflexivity|].
      cbn. auto.
    + intros Hlt c Hsolve.
      assert (Eg : Qgt_bool (capital - ci_future_value savings) 0 = true)
        by (apply Qgt_bool_true; lra).
      rewrite Eg, Hsolve. cbn [bind]. eexists. split; [reflexivity|].
      cbn. auto.
    + intros Hlt e Hsolve.
      assert (Eg : Qgt_bool (capital - ci_future_value savings) 0 = true)
        by (apply Qgt_bool_true; lra).
      rewrite Eg, Hsolve. reflexivity.
Qed.

Lemma retirement_planning_shortfall_clamp_witness :
  (exists plan,
     retirement_planning init 30 60 1000000 100 0 100 = Return plan /\
     rp_shortfall plan = 0 /\
     rp_required_monthly_contribution plan = 100) /\
  (exists plan c,
     retirement_planning init 30 60 1000 100 0 1000 = Return plan /\
     calculate_required_monthly_contribution 1000 (rp_required_capital plan)
       0 (60 - 30) = Return c /\
     0 < rp_shortfall plan /\
     rp_required_monthly_contribution plan = c).
Proof.
  split.
  - edestruct (proj2 (retirement_planning_shortfall_clamp
                        init 30 60 1000000 100 0 100)) as (HB & _ & _).
    + vm_compute; reflexivity.
    + vm_compute; reflexivity.
    + destruct HB as (plan & Hp & _ & _ & Hs & Hm);
        [vm_compute; discriminate|].
      exists plan. auto.
  - edestruct (proj2 (retirement_planning_shortfall_clamp
                        init 30 60 1000 100 0 1000)) as (_ & HC & _).
    + vm_compute; reflexivity.
    + vm_compute; reflexivity.
    + edestruct HC as (plan & Hp & _ & Hc & Hs & Hm).
      * vm_compute; reflexivity.
      * vm_compute; reflexivity.
      * exists plan. eexists. split; [exact Hp|].
        rewrite Hc, Hs, Hm. split; [vm_compute; reflexivity|].
        split; vm_compute; reflexivity.
Defined.




(** * Annuity payment and present value of an annuity *)

(** What a returned result of [calculate_annuity_payment] is made of. *)
Lemma calculate_annuity_payment_inv (L r : Q) (Y ppy : Z)
    (res : AnnuityPayment) :
  calculate_annuity_payment L r Y ppy = Return res ->
  let rpp := r / inject_Z ppy in
  let n := (Y * ppy)%Z in
  ap_total_paid res = ap_monthly_payment res * inject_Z n /\
  ap_total_interest res = ap_monthly_payment res * inject_Z n - L /\
  ~ L == 0 /\
  (~ rpp == 0 ->
   ~ (1 + rpp) ^ n - 1 == 0 /\
   ap_monthly_payment res
   = L * (rpp * (1 + rpp) ^ n) / ((1 + rpp) ^ n - 1)).
Proof.
  intros H rpp n. unfold calculate_annuity_payment in H.
  destruct (truediv r (inject_Z ppy)) as [rate|] eqn:Er; [|discriminate].
  destruct (truediv_inv _ _ _ Er) as [_ ->]. cbn [bind] in H.
  fold rpp n in H.
  destruct (if Qeq_bool rpp 0 then _ else _) as [payment|] eqn:Ep;
    [|discriminate].
  cbn [bind] in H.
  destruct (truediv (payment * inject_Z n - L) L) as [p|] eqn:Ei;
    [|discriminate].
  destruct (truediv_inv _ _ _ Ei) as [HL _].
  cbn [bind] in H. injection H as <-. cbn.
  split; [reflexivity|]. split; [reflexivity|]. split; [exact HL|].
  intro Hr. apply Qeq_bool_false in Hr. rewrite Hr in Ep.
  destruct (math_pow_int (1 + rpp) n) as [g|] eqn:Eg; [|discriminate].
  destruct (math_pow_int_inv _ _ _ Eg) as [-> _]. cbn [bind] in Ep.
  destruct (truediv_inv _ _ _ Ep) as [Hg ->]. auto.
Qed.





(** * The future value and the annual rate *)





(** * Further properties of [compound_interest] *)

(** The result of [compound_interest] on the constructed calculator,
    written out. *)
Lemma compound_interest_eq (P r : Q) (years cpy : Z) (C : Q) :
  let rpp := r / inject_Z cpy in
  let n := (years * cpy)%Z in
  let fc := if Qgt_bool C 0 && Qgt_bool rpp 0
            then C * (((1 + rpp) ^ n - 1) / rpp)
            else C * inject_Z n in
  let fv := P * (1 + rpp) ^ n + fc in
  let invested := P + C * inject_Z n in
  cpy <> 0%Z ->
  ~ 1 + rpp == 0 \/ (0 <= n)%Z ->
  compound_interest init P r years cpy C
  = Return {| ci_future_value := fv;
              ci_total_invested := invested;
              ci_total_interest := fv - invested;
              ci_real_value := fv / (1 + inflation_rate init) ^ years;
              ci_return_percentage :=
                if Qgt_bool invested 0
                then (fv - invested) / invested * 100 else 0;
              ci_annual_rate := r * 100;
              ci_years := years |}.
Proof.
  intros rpp n fc fv invested Hc Hp. unfold compound_interest.
  rewrite (truediv_Return r _ (inject_Z_nonzero _ Hc)). cbn [bind].
  fold rpp n. unfold future_value_principal.
  rewrite (math_pow_int_Return _ _ Hp). cbn [bind].
  assert (Hfc : future_value_contributions C rpp n = Return fc).
  { unfold future_value_contributions, fc.
    destruct (Qgt_bool C 0 && Qgt_bool rpp 0) eqn:E; [|reflexivity].
    apply andb_true_iff in E as [_ E]. apply Qgt_bool_true in E.
    rewrite (math_pow_int_Return _ _ Hp). cbn [bind].
    rewrite truediv_Return; [reflexivity|].
    intro H0. rewrite H0 in E. apply (Qlt_irrefl _ E). }
  rewrite Hfc. cbn [bind]. fold fv invested.
  rewrite (math_pow_int_Return (1 + inflation_rate init) years)
    by (left; unfold init; simpl; intro H; discriminate H).
  cbn [bind]. rewrite (truediv_Return _ _ (deflator_nonzero years)). cbn [bind].
  destruct (Qgt_bool invested 0) eqn:Eg.
  - apply Qgt_bool_true in Eg. rewrite truediv_Return; [reflexivity|].
    intro H0. rewrite H0 in Eg. apply (Qlt_irrefl _ Eg).
  - reflexivity.
Qed.

(** X1: the exceptions [compound_interest] raises on its own inputs.  It
    raises [ZeroDivisionError] when [compounds_per_year] is 0, and
    [ValueError] when the growth factor
    [1 + annual_rate / compounds_per_year] is 0 and the number of periods
    is negative. *)
Theorem compound_interest_exceptions (P r : Q) (years cpy : Z) (C : Q) :
  (cpy = 0%Z ->
   compound_interest init P r years cpy C = Raise ZeroDivisionError) /\
  (cpy <> 0%Z -> 1 + r / inject_Z cpy == 0 -> (years * cpy < 0)%Z ->
   compound_interest init P r years cpy C = Raise ValueError).
Proof.
  split.
  - intros ->. reflexivity.
  - intros Hc H0 Hn. unfold compound_interest.
    rewrite (truediv_Return r _ (inject_Z_nonzero _ Hc)). cbn [bind].
    unfold future_value_principal, math_pow_int.
    apply Qeq_bool_iff in H0. rewrite H0.
    apply Z.ltb_lt in Hn. rewrite Hn. reflexivity.
Qed.

Lemma compound_interest_exceptions_witness :
  compound_interest init 1000 (5 # 100) 10 0 50 = Raise ZeroDivisionError /\
  compound_interest init 1000 (- (12)) (-1) 12 50 = Raise ValueError.
Proof.
  destruct (compound_interest_exceptions 1000 (5 # 100) 10 0 50)
    as (H1 & _).
  destruct (compound_interest_exceptions 1000 (- (12)) (-1) 12 50)
    as (_ & H2).
  split; [apply H1; reflexivity|].
  apply H2; [discriminate | reflexivity | reflexivity].
Defined.

(** X2: a projection over zero years returns the principal unchanged,
    whatever the rate and the contribution: future value, total invested
    and real value are the principal, interest and return percentage are
    0. *)
Theorem compound_interest_zero_years (P r : Q) (cpy : Z) (C : Q) :
  cpy <> 0%Z ->
  exists res,
    compound_interest init P r 0 cpy C = Return res /\
    ci_future_value res == P /\
    ci_total_invested res == P /\
    ci_total_interest res == 0 /\
    ci_real_value res == P /\
    ci_return_percentage res == 0.
Proof.
  intro Hc.
  pose proof (compound_interest_eq P r 0 cpy C Hc) as H.
  cbv zeta in H. change (0 * cpy)%Z with 0%Z in H.
  eexists. split; [apply H; right; lia|].
  cbn [ci_future_value ci_total_invested ci_total_interest ci_real_value
       ci_return_percentage].
  set (rpp := r / inject_Z cpy).
  change ((1 + rpp) ^ 0) with 1.
  change ((1 + inflation_rate init) ^ 0) with 1.
  change (inject_Z 0) with 0.
  assert (Hfc : (if Qgt_bool C 0 && Qgt_bool rpp 0
                 then C * ((1 - 1) / rpp) else C * 0) == 0).
  { destruct (Qgt_bool C 0 && Qgt_bool rpp 0) eqn:E; [|ring].
    apply andb_true_iff in E as [_ E]. apply Qgt_bool_true in E.
    field. intro H0. rewrite H0 in E. apply (Qlt_irrefl _ E). }
  set (fc := if Qgt_bool C 0 && Qgt_bool rpp 0
             then C * ((1 - 1) / rpp) else C * 0) in *.
  assert (Hfv : P * 1 + fc == P) by (rewrite Hfc; ring).
  assert (Hinv : P + C * 0 == P) by ring.
  split; [exact Hfv|]. split; [exact Hinv|].
  split; [rewrite Hfv, Hinv; ring|].
  split; [rewrite Hfv; field|].
  destruct (Qgt_bool (P + C * 0) 0) eqn:Eg; [|reflexivity].
  apply Qgt_bool_true in Eg. rewrite Hfv, Hinv. field.
  intro H0. rewrite Hinv, H0 in Eg. apply (Qlt_irrefl _ Eg).
Qed.

Lemma compound_interest_zero_years_witness :
  exists res,
    compound_interest init 1000 (5 # 100) 0 12 50 = Return res /\
    ci_future_value res == 1000.
Proof.
  destruct (compound_interest_zero_years 1000 (5 # 100) 12 50)
    as (res & H & Hfv & _); [discriminate|].
  exists res. split; assumption.
Defined.

(** * Further properties of [calculate_annuity_payment] *)

(** X4: [calculate_annuity_payment] has no result for a degenerate loan:
    it raises [ZeroDivisionError] when [payments_per_year] is 0 and when
    [years] is 0, and it never returns when the loan amount is 0 (the
    interest percentage divides by it). *)
Theorem calculate_annuity_payment_degenerate (L r : Q) (Y ppy : Z) :
  (ppy = 0%Z ->
   calculate_annuity_payment L r Y ppy = Raise ZeroDivisionError) /\
  (Y = 0%Z ->
   calculate_annuity_payment L r Y ppy = Raise ZeroDivisionError) /\
  (L == 0 ->
   exists e, calculate_annuity_payment L r Y ppy = Raise e).
Proof.
  split; [|split].
  - intros ->. reflexivity.
  - intros ->. unfold calculate_annuity_payment.
    destruct (truediv r (inject_Z ppy)) as [rpp|e] eqn:Er.
    + cbn [bind]. change (0 * ppy)%Z with 0%Z.
      destruct (Qeq_bool rpp 0); [reflexivity|].
      unfold math_pow_int. rewrite andb_false_r. cbn [bind].
      rewrite truediv_Raise; [reflexivity|].
      change ((1 + rpp) ^ 0) with 1. reflexivity.
    + unfold truediv in Er. destruct (Qeq_bool (inject_Z ppy) 0);
        [|discriminate]. now injection Er as <-.
  - intro HL.
    destruct (calculate_annuity_payment L r Y ppy) as [res|e] eqn:E;
      [|eauto].
    destruct (calculate_annuity_payment_inv _ _ _ _ _ E) as (_ & _ & Hn & _).
    contradiction.
Qed.

Lemma calculate_annuity_payment_degenerate_witness :
  calculate_annuity_payment 100000 (6 # 100) 10 0 = Raise ZeroDivisionError /\
  calculate_annuity_payment 100000 (6 # 100) 0 12 = Raise ZeroDivisionError /\
  exists e, calculate_annuity_payment 0 (6 # 100) 10 12 = Raise e.
Proof.
  split; [|split].
  - apply (proj1 (calculate_annuity_payment_degenerate
                    100000 (6 # 100) 10 0)). reflexivity.
  - apply (proj1 (proj2 (calculate_annuity_payment_degenerate
                           100000 (6 # 100) 0 12))). reflexivity.
  - apply (proj2 (proj2 (calculate_annuity_payment_degenerate
                           0 (6 # 100) 10 12))). reflexivity.
Defined.

(** * Further properties of the solver functions *)

(** X7: the exceptions of [calculate_required_capital].  It never raises
    [ZeroDivisionError], because the zero rate is tested before the
    division; it raises [ValueError] when the monthly growth factor
    [1 + annual_return / 12] is 0 and [years] is positive; and at a zero
    return it returns the undiscounted sum
    [monthly_income * (years * 12)]. *)
Theorem calculate_required_capital_exceptions
    (monthly_income : Q) (years : Z) (annual_return : Q) :
  calculate_required_capital monthly_income years annual_return
  <> Raise ZeroDivisionError /\
  (1 + annual_return / 12 == 0 -> (0 < years)%Z ->
   calculate_required_capital monthly_income years annual_return
   = Raise ValueError) /\
  (annual_return == 0 ->
   calculate_required_capital monthly_income years annual_return
   = Return (monthly_income * inject_Z (years * 12))).
Proof.
  split; [|split].
  - unfold calculate_required_capital.
    destruct (Qeq_bool (annual_return / 12) 0) eqn:E; [discriminate|].
    apply Qeq_bool_false in E. unfold math_pow_int.
    destruct (Qeq_bool (1 + annual_return / 12) 0
              && (- (years * 12) <? 0)%Z); [discriminate|].
    cbn [bind]. rewrite (truediv_Return _ _ E). discriminate.
  - intros H0 Hy. unfold calculate_required_capital.
    assert (E : Qeq_bool (annual_return / 12) 0 = false).
    { apply Qeq_bool_false. intro H. rewrite H in H0. discriminate H0. }
    rewrite E. unfold math_pow_int.
    apply Qeq_bool_iff in H0. rewrite H0.
    assert (L : (- (years * 12) <? 0)%Z = true) by (apply Z.ltb_lt; lia).
    rewrite L. reflexivity.
  - intro H0. unfold calculate_required_capital.
    assert (E : Qeq_bool (annual_return / 12) 0 = true).
    { apply Qeq_bool_iff. rewrite H0. reflexivity. }
    now rewrite E.
Qed.

Lemma calculate_required_capital_exceptions_witness :
  calculate_required_capital 1000 20 (- (12)) = Raise ValueError /\
  calculate_required_capital 1000 20 0
  = Return (1000 * inject_Z (20 * 12)).
Proof.
  split.
  - apply (proj1 (proj2 (calculate_required_capital_exceptions
                           1000 20 (- (12))))); reflexivity.
  - apply (proj2 (proj2 (calculate_required_capital_exceptions 1000 20 0))).
    reflexivity.
Defined.

(** The solver, written out, when its power is defined. *)
Lemma calculate_required_monthly_contribution_eq
    (current_savings target_amount annual_return : Q) (years : Z) :
  let x := annual_return / 12 in
  let n := (years * 12)%Z in
  let needed := target_amount - current_savings * (1 + x) ^ n in
  ~ 1 + x == 0 \/ (0 <= n)%Z ->
  calculate_required_monthly_contribution
    current_savings target_amount annual_return years
  = if Qle_bool needed 0 then Return 0
    else if Qeq_bool x 0 then truediv needed (inject_Z n)
    else truediv (needed * x) ((1 + x) ^ n - 1).
Proof.
  intros x n needed Hp. unfold calculate_required_monthly_contribution.
  fold x n. rewrite (math_pow_int_Return _ _ Hp). cbn [bind]. fold needed.
  reflexivity.
Qed.

(** With no time left the solver cannot spread a positive gap over any
    month. *)
Lemma solver_zero_years_raises (current_savings target_amount annual_return : Q) :
  current_savings < target_amount ->
  calculate_required_monthly_contribution
    current_savings target_amount annual_return 0
  = Raise ZeroDivisionError.
Proof.
  intro Hlt.
  rewrite calculate_required_monthly_contribution_eq by (right; discriminate).
  change (0 * 12)%Z with 0%Z.
  change ((1 + annual_return / 12) ^ 0) with 1.
  assert (E1 : Qle_bool (target_amount - current_savings * 1) 0 = false).
  { destruct (Qle_bool _ 0) eqn:E; [|reflexivity].
    apply Qle_bool_iff in E. lra. }
  rewrite E1.
  destruct (Qeq_bool (annual_return / 12) 0); reflexivity.
Qed.

(** X9: the edge cases of [calculate_required_monthly_contribution].  When
    the grown savings already reach the target it returns 0; over zero
    years with a target above the savings it raises [ZeroDivisionError],
    at every rate. *)
Theorem calculate_required_monthly_contribution_edges
    (current_savings target_amount annual_return : Q) (years : Z) :
  (~ 1 + annual_return / 12 == 0 \/ (0 <= years * 12)%Z ->
   target_amount <= current_savings * (1 + annual_return / 12) ^ (years * 12) ->
   calculate_required_monthly_contribution
     current_savings target_amount annual_return years = Return 0) /\
  (years = 0%Z -> current_savings < target_amount ->
   calculate_required_monthly_contribution
     current_savings target_amount annual_return years
   = Raise ZeroDivisionError).
Proof.
  split.
  - intros Hp Hle.
    rewrite (calculate_required_monthly_contribution_eq _ _ _ _ Hp).
    assert (E : Qle_bool (target_amount - current_savings
                          * (1 + annual_return / 12) ^ (years * 12)) 0 = true)
      by (apply Qle_bool_iff; lra).
    now rewrite E.
  - intros -> Hlt. now apply solver_zero_years_raises.
Qed.

Lemma calculate_required_monthly_contribution_edges_witness :
  calculate_required_monthly_contribution 2000000 1000000 (10 # 100) 20
  = Return 0 /\
  calculate_required_monthly_contribution 1000 5000 (10 # 100) 0
  = Raise ZeroDivisionError.
Proof.
  split.
  - apply (proj1 (calculate_required_monthly_contribution_edges
                    2000000 1000000 (10 # 100) 20)).
    + right. discriminate.
    + apply Qle_trans with (2000000 * 1); [discriminate|].
      rewrite !(Qmult_comm 2000000). apply Qmult_le_compat_r; [|discriminate].
      apply Qpower_1_le; discriminate.
  - apply (proj2 (calculate_required_monthly_contribution_edges
                    1000 5000 (10 # 100) 0)); reflexivity.
Defined.

(** * Further properties of [retirement_planning] *)

(** X11: retiring at once.  With [retirement_age = current_age] the
    projected savings are the current savings; the planner returns a plan
    (no shortfall, contribution unchanged) when the required capital does
    not exceed them, and raises [ZeroDivisionError] from the contribution
    solver when it does. *)
Theorem retirement_planning_equal_ages (age : Z)
    (current_savings monthly_contribution expected_return
       desired_monthly_income capital : Q) :
  calculate_required_capital desired_monthly_income (life_expectancy - age)
    (expected_return * (7 # 10)) = Return capital ->
  (capital <= current_savings ->
   exists plan,
     retirement_planning init age age current_savings monthly_contribution
       expected_return desired_monthly_income = Return plan /\
     rp_years_to_retirement plan = 0%Z /\
     rp_projected_retirement_savings plan == current_savings /\
     rp_shortfall plan = 0 /\
     rp_required_monthly_contribution plan = monthly_contribution) /\
  (current_savings < capital ->
   retirement_planning init age age current_savings monthly_contribution
     expected_return desired_monthly_income = Raise ZeroDivisionError).
Proof.
  intro Hcap. unfold retirement_planning. rewrite Z.sub_diag.
  rewrite compound_interest_eq by (discriminate || (right; discriminate)).
  cbn [bind]. rewrite Hcap. cbn [bind ci_future_value].
  change (0 * 12)%Z with 0%Z.
  set (x := expected_return / inject_Z 12).
  change ((1 + x) ^ 0) with 1. change (inject_Z 0) with 0.
  set (fc := if Qgt_bool monthly_contribution 0 && Qgt_bool x 0
             then monthly_contribution * ((1 - 1) / x)
             else monthly_contribution * 0).
  assert (Hfc : fc == 0).
  { unfold fc.
    destruct (Qgt_bool monthly_contribution 0 && Qgt_bool x 0) eqn:E; [|ring].
    apply andb_true_iff in E as [_ E]. apply Qgt_bool_true in E.
    field. intro H0. rewrite H0 in E. apply (Qlt_irrefl _ E). }
  assert (Hfv : current_savings * 1 + fc == current_savings)
    by (rewrite Hfc; ring).
  split.
  - intro Hle.
    assert (G : Qgt_bool (capital - (current_savings * 1 + fc)) 0 = false)
      by (apply Qgt_bool_false; lra).
    rewrite G. cbn [bind]. eexists. split; [reflexivity|].
    cbn. repeat split. exact Hfv.
  - intro Hlt.
    assert (G : Qgt_bool (capital - (current_savings * 1 + fc)) 0 = true)
      by (apply Qgt_bool_true; lra).
    rewrite G. rewrite (solver_zero_years_raises _ _ _ Hlt). reflexivity.
Qed.

Lemma retirement_planning_equal_ages_witness :
  (exists plan,
     retirement_planning init 60 60 400000 0 0 1000 = Return plan /\
     rp_shortfall plan = 0) /\
  retirement_planning init 60 60 1000 0 0 1000 = Raise ZeroDivisionError.
Proof.
  split.
  - destruct (proj1 (retirement_planning_equal_ages
                       60 400000 0 0 1000 (1000 * inject_Z 300) eq_refl))
      as (plan & H & _ & _ & Hs & _); [discriminate|].
    exists plan. split; assumption.
  - apply (proj2 (retirement_planning_equal_ages
                    60 1000 0 0 1000 (1000 * inject_Z 300) eq_refl)).
    reflexivity.
Defined.

(** * Further properties of [calculate_cagr] *)

(** The exponent [1 / years] is integral only for one year. *)
Lemma as_integer_inverse_years (years : Z) :
  (2 <= years)%Z \/ (years <= -2)%Z ->
  as_integer (1 / inject_Z years) = None.
Proof.
  intro H. unfold as_integer.
  destruct years as [|p|p]; [lia | |].
  - cbn. rewrite Z.rem_small by lia. reflexivity.
  - cbn. change (Z.neg 1) with (- (1))%Z.
    rewrite Z.rem_opp_l by lia. rewrite Z.rem_small by lia. reflexivity.
Qed.

(** X13: the special cases of [calculate_cagr] for a non-zero beginning
    value.  Over one year it is the simple return in percent; over two or
    more years it raises [ValueError] when the ratio of ending to
    beginning value is negative, and returns -100 when the ending value is
    0. *)
Theorem calculate_cagr_special_cases (real_pow : Q -> Q -> Q)
    (beginning_value ending_value : Q) (years : Z) :
  ~ beginning_value == 0 ->
  (years = 1%Z ->
   calculate_cagr real_pow beginning_value ending_value years
   = Return ((ending_value / beginning_value - 1) * 100)) /\
  ((2 <= years)%Z -> ending_value / beginning_value < 0 ->
   calculate_cagr real_pow beginning_value ending_value years
   = Raise ValueError) /\
  ((2 <= years)%Z -> ending_value == 0 ->
   returns (calculate_cagr real_pow beginning_value ending_value years)
     (- (100))).
Proof.
  intro Hb. pose proof Hb as Eb. apply Qeq_bool_false in Eb.
  split; [|split].
  - intros ->. unfold calculate_cagr. rewrite Eb.
    rewrite (truediv_Return _ _ Hb). cbn [orb Z.eqb bind].
    change (truediv 1 (inject_Z 1)) with (Return (A := Q) 1).
    cbn [bind]. unfold math_pow.
    change (as_integer 1) with (Some 1%Z). unfold math_pow_int.
    rewrite andb_false_r. reflexivity.
  - intros Hy Hneg. unfold calculate_cagr. rewrite Eb.
    assert (Ey : (years =? 0)%Z = false) by (apply Z.eqb_neq; lia).
    rewrite Ey. cbn [orb]. rewrite (truediv_Return _ _ Hb). cbn [bind].
    rewrite truediv_Return by (apply inject_Z_nonzero; lia). cbn [bind].
    unfold math_pow. rewrite as_integer_inverse_years by (left; exact Hy).
    assert (G : Qgt_bool (ending_value / beginning_value) 0 = false)
      by (apply Qgt_bool_false; lra).
    assert (E0 : Qeq_bool (ending_value / beginning_value) 0 = false)
      by (apply Qeq_bool_false; intro H0; lra).
    rewrite G, E0. reflexivity.
  - intros Hy He. unfold calculate_cagr. rewrite Eb.
    assert (Ey : (years =? 0)%Z = false) by (apply Z.eqb_neq; lia).
    rewrite Ey. cbn [orb]. rewrite (truediv_Return _ _ Hb). cbn [bind].
    rewrite truediv_Return by (apply inject_Z_nonzero; lia). cbn [bind].
    unfold math_pow. rewrite as_integer_inverse_years by (left; exact Hy).
    assert (Hr0 : ending_value / beginning_value == 0)
      by (rewrite He; unfold Qdiv; ring).
    assert (G : Qgt_bool (ending_value / beginning_value) 0 = false)
      by (apply Qgt_bool_false; lra).
    assert (E0 : Qeq_bool (ending_value / beginning_value) 0 = true)
      by (now apply Qeq_bool_iff).
    assert (Gy : Qgt_bool (1 / inject_Z years) 0 = true).
    { apply Qgt_bool_true. apply Qlt_shift_div_l;
        [apply inject_Z_pos; lia | reflexivity]. }
    rewrite G, E0, Gy. cbn [andb bind].
    eexists. split; [reflexivity|]. reflexivity.
Qed.

Lemma calculate_cagr_special_cases_witness :
  calculate_cagr (fun _ _ => 1) 1000 1100 1
  = Return ((1100 / 1000 - 1) * 100) /\
  calculate_cagr (fun _ _ => 1) 1000 (- (500)) 3 = Raise ValueError /\
  returns (calculate_cagr (fun _ _ => 1) 1000 0 3) (- (100)).
Proof.
  assert (Hb : ~ 1000 == 0) by (intro H; discriminate H).
  split; [|split].
  - apply (proj1 (calculate_cagr_special_cases
                    (fun _ _ => 1) 1000 1100 1 Hb)). reflexivity.
  - apply (proj1 (proj2 (calculate_cagr_special_cases
                           (fun _ _ => 1) 1000 (- (500)) 3 Hb)));
      [discriminate | reflexivity].
  - apply (proj2 (proj2 (calculate_cagr_special_cases
                           (fun _ _ => 1) 1000 0 3 Hb)));
      [discriminate | reflexivity].
Defined.

(** * Further properties of [dollar_cost_averaging] *)

Section DcaRuns.

Variable monthly_investment : Q.
Variable price_volatility : list Q.

(** A month whose change is -100 percent has price 0. *)
Lemma price_zero_iff (base : Q) (month : nat) :
  ~ base == 0 ->
  (base * (1 + price_change price_volatility month / 100) == 0
   <-> price_change price_volatility month == - (100)).
Proof.
  intro Hb. split; intro H.
  - apply Qmult_integral in H as [H|H]; [contradiction|].
    setoid_replace (price_change price_volatility month)
      with ((1 + price_change price_volatility month / 100) * 100 - 100)
      by field.
    rewrite H. ring.
  - rewrite H. setoid_replace (1 + - (100) / 100) with 0 by field. ring.
Qed.

Lemma dca_loop_returns_bounded (n : nat) :
  forall (month : nat) (st : DcaState),
    ~ base_price st == 0 ->
    (forall k, (month <= k < month + n)%nat ->
               ~ price_change price_volatility k == - (100)) ->
    exists st',
      dca_loop monthly_investment price_volatility n month st = Return st'.
Proof.
  induction n as [|n IH]; intros month st Hb Hpv.
  - eexists. reflexivity.
  - cbn [dca_loop]. unfold dca_step.
    assert (Hp : ~ base_price st
                   * (1 + price_change price_volatility month / 100) == 0).
    { rewrite (price_zero_iff _ month Hb). apply Hpv. lia. }
    rewrite (truediv_Return _ _ Hp). cbn [bind].
    apply IH; [exact Hp|]. intros k Hk. apply Hpv. lia.
Qed.

Lemma dca_loop_raises (n : nat) :
  forall (month : nat) (st : DcaState),
    ~ base_price st == 0 ->
    (exists k, (month <= k < month + n)%nat /\
               price_change price_volatility k == - (100)) ->
    dca_loop monthly_investment price_volatility n month st
    = Raise ZeroDivisionError.
Proof.
  induction n as [|n IH]; intros month st Hb (k & Hk & Hz).
  - lia.
  - cbn [dca_loop]. unfold dca_step.
    destruct (Qeq_dec (price_change price_volatility month) (- (100)))
      as [E|E].
    + rewrite truediv_Raise; [reflexivity|].
      now apply (price_zero_iff _ month Hb).
    + assert (Hp : ~ base_price st
                     * (1 + price_change price_volatility month / 100) == 0)
        by now rewrite (price_zero_iff _ month Hb).
      rewrite (truediv_Return _ _ Hp). cbn [bind].
      apply IH; [exact Hp|].
      exists k. split; [|exact Hz].
      assert (k <> month) by (intros ->; contradiction). lia.
Qed.

(** Once the loop has returned, the totals are computed without error. *)
Lemma dollar_cost_averaging_of_loop (years : Z) (st : DcaState) :
  dca_loop monthly_investment price_volatility (Z.to_nat (years * 12)) 0
    {| total_invested := 0; total_shares := 0;
       base_price := 100; monthly_data := [] |} = Return st ->
  exists res,
    dollar_cost_averaging monthly_investment years price_volatility
    = Return res /\
    dca_total_invested res = total_invested st /\
    dca_total_shares res = total_shares st /\
    dca_final_value res = total_shares st * base_price st /\
    dca_monthly_breakdown res = monthly_data st /\
    dca_average_price res
    = (if Qgt_bool (total_shares st) 0
       then total_invested st / total_shares st else 0) /\
    dca_return_percentage res
    = (if Qgt_bool (total_invested st) 0
       then (total_shares st * base_price st - total_invested st)
            / total_invested st * 100
       else 0).
Proof.
  intro Hl. unfold dollar_cost_averaging. rewrite Hl. cbn [bind].
  assert (Ha : (if Qgt_bool (total_shares st) 0
                then truediv (total_invested st) (total_shares st)
                else Return 0)
               = Return (if Qgt_bool (total_shares st) 0
                         then total_invested st / total_shares st else 0)).
  { destruct (Qgt_bool (total_shares st) 0) eqn:E; [|reflexivity].
    apply Qgt_bool_true in E. apply truediv_Return.
    intro H0. rewrite H0 in E. apply (Qlt_irrefl _ E). }
  rewrite Ha. cbn [bind].
  destruct (Qgt_bool (total_invested st) 0) eqn:E.
  - apply Qgt_bool_true in E. rewrite truediv_Return.
    + cbn [bind]. eexists. split; [reflexivity|]. cbn. repeat split.
    + intro H0. rewrite H0 in E. apply (Qlt_irrefl _ E).
  - cbn [bind]. eexists. split; [reflexivity|]. cbn. repeat split.
Qed.

End DcaRuns.

(** X16: the edges of [dollar_cost_averaging].  It raises
    [ZeroDivisionError] whenever one of the simulated months (month index
    below [years * 12]) has a price change of -100 percent, which makes
    the price 0; and for [years <= 0] it simulates nothing and returns the
    empty result, with no month in the breakdown and every total, the
    average price and the return percentage 0, whatever the list of
    changes holds. *)
Theorem dollar_cost_averaging_exceptions (monthly_investment : Q)
    (years : Z) (price_volatility : list Q) :
  ((exists k, (k < Z.to_nat (years * 12))%nat /\
              price_change price_volatility k == - (100)) ->
   dollar_cost_averaging monthly_investment years price_volatility
   = Raise ZeroDivisionError) /\
  ((years <= 0)%Z ->
   exists res,
     dollar_cost_averaging monthly_investment years price_volatility
     = Return res /\
     dca_monthly_breakdown res = [] /\
     dca_total_invested res = 0 /\
     dca_total_shares res = 0 /\
     dca_final_value res == 0 /\
     dca_total_return res == 0 /\
     dca_average_price res = 0 /\
     dca_return_percentage res = 0).
Proof.
  assert (H100 : ~ 100 == 0) by (intro H; discriminate H).
  split.
  - intros (k & Hk & Hz). unfold dollar_cost_averaging.
    rewrite dca_loop_raises; [reflexivity | exact H100 |].
    exists k. split; [lia | exact Hz].
  - intro Hy. unfold dollar_cost_averaging.
    assert (E : Z.to_nat (years * 12) = 0%nat) by lia.
    rewrite E. cbn [dca_loop bind total_shares total_invested base_price].
    change (Qgt_bool 0 0) with false. cbn [bind].
    eexists. split; [reflexivity|]. cbn.
    repeat split; reflexivity.
Qed.

Lemma dollar_cost_averaging_exceptions_witness :
  dollar_cost_averaging 100 1 [10; - (100); 5] = Raise ZeroDivisionError /\
  exists res,
    dollar_cost_averaging 100 0 [10; - (100); 5] = Return res /\
    dca_monthly_breakdown res = [].
Proof.
  split.
  - apply (proj1 (dollar_cost_averaging_exceptions 100 1 [10; - (100); 5])).
    exists 1%nat. split; [vm_compute; lia | reflexivity].
  - destruct (proj2 (dollar_cost_averaging_exceptions 100 0 [10; - (100); 5]))
      as (res & H & Hb & _); [discriminate|].
    exists res. split; assumption.
Defined.

(** With flat prices every price of a chain is the starting price. *)
Lemma price_chain_flat (price_volatility : list Q) (steps : list DcaStep) :
  (forall k, price_change price_volatility k == 0) ->
  forall (base : Q) (month : nat),
    base == 100 ->
    price_chain price_volatility base month steps ->
    Forall (fun s => ms_price s == 100) steps.
Proof.
  intro Hflat. induction steps as [|s steps IH]; intros base month Hb Hc.
  - constructor.
  - destruct Hc as [Hs Hc].
    assert (Hp : ms_price s == 100).
    { rewrite Hs, Hflat, Hb. reflexivity. }
    constructor; [exact Hp|]. exact (IH _ _ Hp Hc).
Qed.

(** X18: with flat prices the price never moves.  When every price change
    is 0 (for instance an empty list of changes), a run raises nothing,
    records one month per simulated month, and every recorded price is
    the starting price 100. *)
Theorem dollar_cost_averaging_flat_prices (monthly_investment : Q)
    (years : Z) (price_volatility : list Q) :
  (forall k, price_change price_volatility k == 0) ->
  exists res,
    dollar_cost_averaging monthly_investment years price_volatility
    = Return res /\
    length (dca_monthly_breakdown res) = Z.to_nat (years * 12) /\
    Forall (fun s => ms_price s == 100) (dca_monthly_breakdown res).
Proof.
  intro Hflat.
  assert (H100 : ~ 100 == 0) by (intro H; discriminate H).
  destruct (dca_loop_returns_bounded monthly_investment price_volatility
              (Z.to_nat (years * 12)) 0
              {| total_invested := 0; total_shares := 0;
                 base_price := 100; monthly_data := [] |} H100)
    as [st Hst].
  { intros k _ H. rewrite Hflat in H. discriminate H. }
  destruct (dollar_cost_averaging_of_loop _ _ _ _ Hst)
    as (res & Hres & _ & _ & _ & Emd & _).
  destruct (dca_loop_chain _ _ _ _ _ _ Hst) as (rest & Hd & Hl & Hc).
  cbn [monthly_data base_price app] in Hd, Hc.
  exists res. split; [exact Hres|]. rewrite Emd, Hd.
  split; [exact Hl|].
  exact (price_chain_flat _ _ Hflat _ _ (Qeq_refl 100) Hc).
Qed.

Lemma dollar_cost_averaging_flat_prices_witness :
  exists res,
    dollar_cost_averaging 100 2 [] = Return res /\
    length (dca_monthly_breakdown res) = Z.to_nat (2 * 12) /\
    Forall (fun s => ms_price s == 100) (dca_monthly_breakdown res).
Proof.
  apply (dollar_cost_averaging_flat_prices 100 2 []).
  intro k. rewrite price_change_out_of_range; [reflexivity | cbn; lia].
Defined.

